(** * extract_docx.py: text extraction from a word-processing document

    A shallow embedding of [src/extract_docx.py].  The script opens one
    document through the [docx] library, walks [doc.paragraphs] and then
    [doc.tables], collects text lines in the list [content], writes
    ['\n'.join(content)] to a fixed output path and prints it.

    Python strings are sequences of Unicode code points; they are modelled
    as [list N].  The list [content] is threaded through the loops as an
    accumulator, [content.append(x)] being [content ++ [x]].  The external
    collaborators ([Document], [open], [f.write]) may raise; their outcome
    is an input of the model, and the script runs in a state-and-exception
    monad over the observable world (files, standard output, call log). *)

From Stdlib Require Import NArith Ascii String.
From stdpp Require Import base option list strings gmap.

Open Scope N_scope.

(** ** Strings *)

Module PyStr.

(** A Python [str]: a sequence of code points. *)
Abbreviation text := (list N).

(** A literal of the script, written as a Rocq string of ASCII characters. *)
Definition py (s : string) : text :=
  (λ a, N_of_ascii a) <$> list_ascii_of_string s.

(** [str.isspace] on one code point, as CPython's [_PyUnicode_IsWhitespace]:
    the characters that [str.strip()] without argument removes. *)
Definition isspace (c : N) : bool :=
  ((0x09 <=? c) && (c <=? 0x0D)) || ((0x1C <=? c) && (c <=? 0x20))
  || (c =? 0x85) || (c =? 0xA0) || (c =? 0x1680)
  || ((0x2000 <=? c) && (c <=? 0x200A))
  || (c =? 0x2028) || (c =? 0x2029) || (c =? 0x202F) || (c =? 0x205F)
  || (c =? 0x3000).

(** [s.lstrip()]: skip whitespace from the left. *)
Fixpoint lstrip (s : text) : text :=
  match s with
  | [] => []
  | c :: s' => if isspace c then lstrip s' else s
  end.

(** [s.rstrip()]: skip whitespace from the right. *)
Definition rstrip (s : text) : text := reverse (lstrip (reverse s)).

(** [s.strip()]: the slice between the first and the last character that is
    not whitespace. *)
Definition strip (s : text) : text := rstrip (lstrip s).

(** [sep.join(l)]. *)
Fixpoint join (sep : text) (l : list text) : text :=
  match l with
  | [] => []
  | x :: rest =>
      match rest with
      | [] => x
      | _ :: _ => x ++ sep ++ join sep rest
      end
  end.

(** [s * n] for a string [s]. *)
Fixpoint times (s : text) (n : nat) : text :=
  match n with
  | O => []
  | S n' => s ++ times s n'
  end.

(** Truth value of a sequence in a condition: non-empty. *)
Definition truthy {A} (l : list A) : bool :=
  match l with
  | [] => false
  | _ :: _ => true
  end.

(** The newline character and the one-character string ['\n']. *)
Definition LF : N := 0x0A.
Definition newline : text := [LF].

(** [s.split('\n')]: cut at every newline; [k] newlines give [k + 1]
    pieces, so the empty string gives one empty piece. *)
Fixpoint split_lines (s : text) : list text :=
  match s with
  | [] => [[]]
  | c :: s' =>
      if c =? LF then [] :: split_lines s'
      else match split_lines s' with
           | [] => [[c]]
           | piece :: pieces => (c :: piece) :: pieces
           end
  end.

End PyStr.

Import PyStr.

(** ** The document, as the [docx] library exposes it *)

Record Paragraph := { para_text : text }.
Record Cell := { cell_text : text }.
Record Row := { cells : list Cell }.
Record Table := { rows : list Row }.

Record Document := {
  paragraphs : list Paragraph;
  tables : list Table
}.

(** The body of a document is a sequence of block items, paragraphs and
    tables interleaved; [doc.paragraphs] and [doc.tables] are its two
    projections, each in document order. *)
Inductive Block :=
| BlockParagraph (p : Paragraph)
| BlockTable (t : Table).

Definition body_paragraphs (body : list Block) : list Paragraph :=
  omap (λ b, match b with BlockParagraph p => Some p | BlockTable _ => None end) body.

Definition body_tables (body : list Block) : list Table :=
  omap (λ b, match b with BlockTable t => Some t | BlockParagraph _ => None end) body.

Definition document_of_body (body : list Block) : Document :=
  {| paragraphs := body_paragraphs body; tables := body_tables body |}.

(** ** The extraction loops *)

Module Extract.

(** The delimiter of the cells of a row. *)
Definition delimiter : text := py " | ".

(** Body of [for para in doc.paragraphs]. *)
Definition paragraph_step (content : list text) (para : Paragraph) : list text :=
  if truthy (strip (para_text para)) then content ++ [para_text para]
  else content.

Definition paragraph_loop (content : list text) (ps : list Paragraph) : list text :=
  foldl paragraph_step content ps.

(** Body of [for cell in row.cells]. *)
Definition cell_step (row_text : list text) (cell : Cell) : list text :=
  if truthy (strip (cell_text cell)) then row_text ++ [strip (cell_text cell)]
  else row_text.

Definition cell_loop (row_text : list text) (cs : list Cell) : list text :=
  foldl cell_step row_text cs.

(** Body of [for row in table.rows]: [row_text] starts empty for each row. *)
Definition row_step (content : list text) (row : Row) : list text :=
  let row_text := cell_loop [] (cells row) in
  if truthy row_text then content ++ [join delimiter row_text]
  else content.

Definition row_loop (content : list text) (rs : list Row) : list text :=
  foldl row_step content rs.

(** Body of [for table in doc.tables]. *)
Definition table_step (content : list text) (table : Table) : list text :=
  row_loop content (rows table).

Definition table_loop (content : list text) (ts : list Table) : list text :=
  foldl table_step content ts.

(** The list [content] when both loops are over. *)
Definition extract (doc : Document) : list text :=
  let content := [] in
  let content := paragraph_loop content (paragraphs doc) in
  table_loop content (tables doc).

(** The string written to the file and printed last. *)
Definition rendered (doc : Document) : text := join newline (extract doc).

End Extract.

Import Extract.

(** ** The world the script acts on *)

Module Runtime.

(** An exception object: its class and its message. *)
Record exn := Raise { exc_class : string; exc_message : string }.

(** Calls to the collaborators, in the order they are made. *)
Inductive call :=
| CallDocument (path : string)
| CallOpen (path : string)
| CallWrite (path : string) (data : text)
| CallClose (path : string)
| CallPrint (line : text).

(** What can be observed of a run.  A file holds the text written to it:
    its encoding (UTF-8) and the newline convention of the platform are
    below this model. *)
Record world := World {
  files : gmap string text;
  stdout : text;
  calls : list call
}.

(** What the collaborators answer during one run: [Document(path)] returns
    a document or raises, [open(path, 'w')] and [f.write(s)] succeed or
    raise. *)
Record environment := {
  document_outcome : exn + Document;
  open_outcome : option exn;
  write_outcome : option exn
}.

(** A computation changes the world and returns a value or raises. *)
Definition run (A : Type) : Type := world → world * (exn + A).

#[global] Instance run_ret : MRet run := λ A a w, (w, inr a).

#[global] Instance run_bind : MBind run := λ A B f m w,
  match m w with
  | (w', inl e) => (w', inl e)
  | (w', inr a) => f a w'
  end.

Definition raise {A} (e : exn) : run A := λ w, (w, inl e).

Definition log (c : call) : run unit := λ w,
  (World (files w) (stdout w) (calls w ++ [c]), inr ()).

Definition set_file (path : string) (data : text) : run unit := λ w,
  (World (<[path := data]> (files w)) (stdout w) (calls w), inr ()).

Definition get_file (path : string) : run text := λ w,
  (w, inr (default [] (files w !! path))).

(** [Document(path)]. *)
Definition docx_Document (E : environment) (path : string) : run Document :=
  log (CallDocument path);;
  match document_outcome E with
  | inl e => raise e
  | inr doc => mret doc
  end.

(** [open(path, 'w', encoding='utf-8')]: the file is created or truncated. *)
Definition open_w (E : environment) (path : string) : run unit :=
  log (CallOpen path);;
  match open_outcome E with
  | Some e => raise e
  | None => set_file path []
  end.

(** [f.write(s)] on the file opened at [path]. *)
Definition file_write (E : environment) (path : string) (s : text) : run unit :=
  log (CallWrite path s);;
  match write_outcome E with
  | Some e => raise e
  | None => old ← get_file path; set_file path (old ++ s)
  end.

Definition file_close (path : string) : run unit := log (CallClose path).

(** Leaving a block: [cleanup] runs whether [body] returned or raised, and
    the result or the exception of [body] is passed on. *)
Definition leaving {A} (body : run A) (cleanup : run unit) : run A := λ w,
  let (w', r) := body w in ((cleanup w').1, r).

(** [with open(path, 'w', ...) as f: body]: the file is closed when the
    block is left, normally or by an exception, which is raised again. *)
Definition with_open_w (E : environment) (path : string) (body : run unit) : run unit :=
  open_w E path;;
  leaving body (file_close path).

Definition emit (s : text) : run unit := λ w,
  (World (files w) (stdout w ++ s) (calls w), inr ()).

(** [print(s)]: the string and a newline on standard output. *)
Definition print (s : text) : run unit :=
  log (CallPrint s);;
  emit (s ++ newline).

End Runtime.

Import Runtime.

(** ** The script *)

Definition input_path : string :=
  "d:\devnolife\network\Modul_CW6552021557_Praktikum_Advanced_Network_Security_and_Protocols.docx".

Definition output_path : string := "d:\devnolife\network\modul_praktikum.txt".

Definition main (E : environment) : run unit :=
  doc ← docx_Document E input_path;
  let content := extract doc in
  with_open_w E output_path (file_write E output_path (join newline content));;
  print (py "Extracted successfully to modul_praktikum.txt");;
  print (newline ++ times (py "=") 50);;
  print (py "CONTENT:");;
  print (times (py "=") 50 ++ newline);;
  print (join newline content).

(** An environment in which no collaborator raises. *)
Definition healthy (doc : Document) : environment :=
  {| document_outcome := inr doc; open_outcome := None; write_outcome := None |}.

(** The exception that ends the run, if any: the first one raised. *)
Definition first_raised (E : environment) : option exn :=
  match document_outcome E with
  | inl e => Some e
  | inr _ =>
      match open_outcome E with
      | Some e => Some e
      | None => write_outcome E
      end
  end.

(** ** The claims as read from the specification, where the code differs *)

(** The paragraphs that are not blank, in document order. *)
Definition nonblank_paragraphs (doc : Document) : list Paragraph :=
  filter (λ p, strip (para_text p) ≠ []) (paragraphs doc).

(** The reading under which each emitted paragraph line is trimmed: the
    output starts with the stripped texts of the paragraphs that are not
    blank. *)
Definition trimmed_paragraph_lines (doc : Document) : Prop :=
  take (length (nonblank_paragraphs doc)) (extract doc)
  = (λ p, strip (para_text p)) <$> nonblank_paragraphs doc.

(** Splitting the written text on newlines gives back the content list. *)
Definition round_trip (doc : Document) : Prop :=
  split_lines (rendered doc) = extract doc.

(** Documents used as concrete inputs. *)
Definition empty_document : Document := {| paragraphs := []; tables := [] |}.

Definition indented_document : Document :=
  {| paragraphs := [ {| para_text := py "  Title " |} ]; tables := [] |}.

(** A paragraph with a line break inside: its text holds a newline. *)
Definition line_break_document : Document :=
  {| paragraphs := [ {| para_text := py "first" ++ newline ++ py "second" |} ];
     tables := [] |}.

Definition sample_document : Document :=
  {| paragraphs := [ {| para_text := py "Title" |};
                     {| para_text := [] |};
                     {| para_text := py " Intro text" |} ];
     tables := [ {| rows := [ {| cells := [ {| cell_text := [] |};
                                            {| cell_text := py " B " |};
                                            {| cell_text := py "C" |} ] |};
                              {| cells := [ {| cell_text := py "  " |};
                                            {| cell_text := [] |} ] |} ] |} ] |}.

Definition initial_world : world :=
  {| files := {[ output_path := py "stale" ]}; stdout := []; calls := [] |}.

Definition PermissionError : exn :=
  Raise "PermissionError" "[Errno 13] Permission denied".

(** An environment in which the output file cannot be opened for writing. *)
Definition locked_output (doc : Document) : environment :=
  {| document_outcome := inr doc;
     open_outcome := Some PermissionError;
     write_outcome := None |}.

(** ** Notions used to state further properties of the script *)

(** A text made of whitespace only. *)
Definition whitespace (s : text) : Prop := Forall (λ c, isspace c = true) s.

(** A text that neither starts nor ends with a whitespace character. *)
Definition trimmed (s : text) : Prop :=
  isspace <$> head s ≠ Some true ∧ isspace <$> last s ≠ Some true.

(** A document whose paragraphs are the given lines, without tables. *)
Definition as_paragraphs (lines : list text) : Document :=
  {| paragraphs := Build_Paragraph <$> lines; tables := [] |}.

(** An environment in which the input document cannot be opened. *)
Definition unreadable_input : environment :=
  {| document_outcome := inl (Raise "PackageNotFoundError" "Package not found");
     open_outcome := None;
     write_outcome := None |}.


(** ** Scenarios of the specification *)

Example scenario_paragraphs :
  extract {| paragraphs := [ {| para_text := py "Title" |};
                             {| para_text := [] |};
                             {| para_text := py "Intro text" |} ];
             tables := [] |}
  = [py "Title"; py "Intro text"].
Proof. reflexivity. Qed.

Example scenario_row_partly_blank :
  extract {| paragraphs := [];
             tables := [ {| rows := [ {| cells := [ {| cell_text := [] |};
                                                    {| cell_text := py "B" |};
                                                    {| cell_text := [] |} ] |} ] |} ] |}
  = [py "B"].
Proof. reflexivity. Qed.

Example scenario_row_blank :
  extract {| paragraphs := [];
             tables := [ {| rows := [ {| cells := [ {| cell_text := [] |};
                                                    {| cell_text := [] |};
                                                    {| cell_text := [] |} ] |} ] |} ] |}
  = [].
Proof. reflexivity. Qed.

Example scenario_sample :
  extract sample_document = [py "Title"; py " Intro text"; py "B | C"].
Proof. reflexivity. Qed.

Example strip_unicode_spaces :
  strip ([0xA0; 0x3000] ++ py "a b" ++ [0x2009; 0x0A]) = py "a b".
Proof. reflexivity. Qed.

(** ** Strings: stripping, joining, splitting *)

Section Strings.

Implicit Types (s t : text) (c : N) (l : list text).

Lemma truthy_true {A} (x : list A) : truthy x = true ↔ x ≠ [].
Proof. destruct x; simpl; split; congruence. Qed.

Lemma truthy_false {A} (x : list A) : truthy x = false ↔ x = [].
Proof. destruct x; simpl; split; congruence. Qed.

(** What is left of [lstrip] starts with a character that is not
    whitespace. *)
Lemma lstrip_head s c t : lstrip s = c :: t → isspace c = false.
Proof.
  induction s as [|a s IH]; simpl; [done|].
  destruct (isspace a) eqn:Ha; [done|].
  intros [= -> _]. exact Ha.
Qed.

Lemma lstrip_nonempty s :
  lstrip s ≠ [] ↔ Exists (λ c, isspace c = false) s.
Proof.
  induction s as [|a s IH]; simpl.
  - split; [done|]. by intros ?%Exists_nil.
  - rewrite Exists_cons. destruct (isspace a) eqn:Ha.
    + rewrite IH. split; [by right|]. intros [?|?]; [congruence|done].
    + split; [by left|done].
Qed.

Lemma lstrip_keeps_visible s :
  Exists (λ c, isspace c = false) (lstrip s)
  ↔ Exists (λ c, isspace c = false) s.
Proof.
  induction s as [|a s IH]; simpl; [done|].
  destruct (isspace a) eqn:Ha; [|done].
  rewrite IH, Exists_cons. split; [by right|].
  intros [?|?]; [congruence|done].
Qed.

Lemma Exists_reverse {A} (P : A → Prop) (x : list A) :
  Exists P (reverse x) ↔ Exists P x.
Proof.
  rewrite !Exists_exists. by setoid_rewrite elem_of_reverse.
Qed.

Lemma reverse_nil_iff {A} (x : list A) : reverse x = [] ↔ x = [].
Proof.
  split; [|by intros ->].
  intros H. apply (f_equal length) in H.
  rewrite length_reverse in H. by destruct x.
Qed.

(** A string is blank, that is its [strip] is empty, exactly when all its
    characters are whitespace. *)
Lemma strip_nonempty s :
  strip s ≠ [] ↔ Exists (λ c, isspace c = false) s.
Proof.
  unfold strip, rstrip.
  rewrite reverse_nil_iff, lstrip_nonempty, Exists_reverse.
  apply lstrip_keeps_visible.
Qed.

Lemma strip_visible s :
  strip s ≠ [] → Exists (λ c, isspace c = false) (strip s).
Proof.
  unfold strip, rstrip. rewrite reverse_nil_iff, Exists_reverse.
  destruct (lstrip (reverse (lstrip s))) as [|c t] eqn:E; [done|].
  intros _. apply Exists_cons_hd. by eapply lstrip_head.
Qed.

Lemma join_cons sep s l :
  l ≠ [] → join sep (s :: l) = s ++ sep ++ join sep l.
Proof. by destruct l. Qed.

Lemma join_visible sep s l :
  Exists (λ c, isspace c = false) s →
  Exists (λ c, isspace c = false) (join sep (s :: l)).
Proof.
  intros H. destruct l as [|t l]; [done|].
  rewrite join_cons by done. apply Exists_app. by left.
Qed.

Lemma split_lines_nonempty s : split_lines s ≠ [].
Proof.
  destruct s as [|c s]; simpl; [done|].
  destruct (c =? LF); [done|]. by destruct (split_lines s).
Qed.

Lemma split_lines_one s : LF ∉ s → split_lines s = [s].
Proof.
  induction s as [|c s IH]; [done|].
  rewrite not_elem_of_cons. intros [Hc Hs]. simpl.
  destruct (N.eqb_spec c LF); [congruence|]. by rewrite IH.
Qed.

Lemma split_lines_app s t :
  LF ∉ s → split_lines (s ++ LF :: t) = s :: split_lines t.
Proof.
  induction s as [|c s IH]; [done|].
  rewrite not_elem_of_cons. intros [Hc Hs]. simpl.
  destruct (N.eqb_spec c LF); [congruence|]. by rewrite IH.
Qed.

Lemma split_lines_join l :
  l ≠ [] → Forall (λ s, LF ∉ s) l → split_lines (join newline l) = l.
Proof.
  induction l as [|s l IH]; [done|]. intros _ [Hs Hl]%Forall_cons.
  destruct l as [|t l].
  - by apply split_lines_one.
  - rewrite join_cons by done.
    change (s ++ newline ++ ?r) with (s ++ LF :: r).
    rewrite split_lines_app by done. by rewrite IH.
Qed.

(** Counting: a text with [k] newlines splits into [k + 1] pieces. *)
Lemma split_lines_length s :
  length (split_lines s) = S (length (filter (λ c, c = LF) s)).
Proof.
  induction s as [|c s IH]; [done|]. simpl.
  rewrite filter_cons. destruct (N.eqb_spec c LF); case_decide; try done.
  - simpl. by rewrite IH.
  - destruct (split_lines s); simpl in *; lia.
Qed.

Lemma newlines_join l :
  l ≠ [] →
  length (filter (λ c, c = LF) (join newline l))
  = (length l - 1 + sum_list ((λ s, length (filter (λ c, c = LF) s)) <$> l))%nat.
Proof.
  induction l as [|s l IH]; [done|]. intros _.
  destruct l as [|t l].
  - simpl. symmetry. apply Nat.add_0_r.
  - rewrite join_cons by done.
    rewrite !filter_app, !length_app, IH by done.
    rewrite (fmap_cons _ s). cbn [sum_list sum_list_with length].
    change (length (filter (λ c, c = LF) newline)) with 1%nat.
    unfold id. lia.
Qed.

Lemma newlines_none l :
  sum_list ((λ s, length (filter (λ c, c = LF) s)) <$> l) = 0%nat →
  Forall (λ s, LF ∉ s) l.
Proof.
  induction l as [|s l IH]; [done|].
  rewrite fmap_cons. cbn [sum_list_with]. unfold id at 1. intros H. apply Forall_cons. split; [|apply IH; lia].
  intros Hin.
  assert (LF ∈ filter (λ c, c = LF) s) as Hf by by apply list_elem_of_filter.
  destruct (filter _ s); [by apply elem_of_nil in Hf|]. simpl in H. lia.
Qed.

Lemma times_replicate c n : times [c] n = replicate n c.
Proof. induction n as [|n IH]; simpl; [done|]. by rewrite IH. Qed.

End Strings.

(** ** The loops, as functions of their input *)

Section Loops.

Implicit Types (content row_text : list text) (ps : list Paragraph)
  (cs : list Cell) (rs : list Row) (ts : list Table).

(** A loop that only appends: what it appends does not depend on what the
    accumulator held before. *)
Lemma foldl_appends {A} (step : list text → A → list text) (xs : list A) :
  (∀ acc x, step acc x = acc ++ step [] x) →
  ∀ acc, foldl step acc xs = acc ++ (xs ≫= step []).
Proof.
  intros Hstep. induction xs as [|x xs IH]; intros acc.
  - simpl. by rewrite app_nil_r.
  - rewrite bind_cons. simpl. rewrite IH, Hstep. by rewrite <- (assoc_L (++)).
Qed.

Lemma paragraph_step_appends content para :
  paragraph_step content para = content ++ paragraph_step [] para.
Proof.
  unfold paragraph_step. destruct (truthy _); simpl; [done|].
  by rewrite app_nil_r.
Qed.

Lemma cell_step_appends row_text cell :
  cell_step row_text cell = row_text ++ cell_step [] cell.
Proof.
  unfold cell_step. destruct (truthy _); simpl; [done|].
  by rewrite app_nil_r.
Qed.

Lemma row_step_appends content row :
  row_step content row = content ++ row_step [] row.
Proof.
  unfold row_step. simpl. destruct (truthy _); simpl; [done|].
  by rewrite app_nil_r.
Qed.

Lemma row_loop_appends content rs :
  row_loop content rs = content ++ (rs ≫= row_step []).
Proof. apply foldl_appends, row_step_appends. Qed.

Lemma table_step_appends content table :
  table_step content table = content ++ table_step [] table.
Proof. unfold table_step. by rewrite !row_loop_appends. Qed.

Lemma table_loop_appends content ts :
  table_loop content ts = content ++ (ts ≫= λ table, rows table ≫= row_step []).
Proof.
  unfold table_loop. rewrite foldl_appends by apply table_step_appends.
  f_equal. induction ts as [|t ts IH]; [done|].
  rewrite !bind_cons, IH. f_equal. unfold table_step.
  by rewrite row_loop_appends.
Qed.

(** One step of a filtering loop against [filter] and [fmap]. *)
Lemma bind_filter_fmap {A} (P : A → Prop) `{∀ x, Decision (P x)}
    (f : A → text) (step : A → list text) (xs : list A) :
  (∀ x, step x = if decide (P x) then [f x] else []) →
  xs ≫= step = f <$> filter P xs.
Proof.
  intros Hstep. induction xs as [|x xs IH]; [done|].
  rewrite bind_cons, filter_cons, Hstep, IH. by case_decide.
Qed.

Lemma paragraph_loop_filter content ps :
  paragraph_loop content ps
  = content ++ (para_text <$> filter (λ p, strip (para_text p) ≠ []) ps).
Proof.
  unfold paragraph_loop.
  rewrite foldl_appends by apply paragraph_step_appends. f_equal.
  apply bind_filter_fmap. intros p. unfold paragraph_step.
  destruct (strip (para_text p)); simpl; try case_decide; done.
Qed.

Lemma cell_loop_filter row_text cs :
  cell_loop row_text cs
  = row_text ++ filter (λ s, s ≠ []) ((λ c, strip (cell_text c)) <$> cs).
Proof.
  unfold cell_loop.
  rewrite foldl_appends by apply cell_step_appends. f_equal.
  induction cs as [|c cs IH]; [done|].
  rewrite bind_cons, fmap_cons, filter_cons, IH. unfold cell_step.
  destruct (strip (cell_text c)); simpl; try case_decide; done.
Qed.

Lemma kept_cells_nonempty cs :
  filter (λ s, s ≠ []) ((λ c, strip (cell_text c)) <$> cs) ≠ []
  ↔ Exists (λ c, strip (cell_text c) ≠ []) cs.
Proof.
  induction cs as [|c cs IH].
  - split; [done|]. by intros ?%Exists_nil.
  - rewrite fmap_cons, filter_cons, Exists_cons. case_decide.
    + split; [by left|done].
    + rewrite IH. split; [by right|]. by intros [?|?].
Qed.

Lemma extract_split doc :
  extract doc
  = paragraph_loop [] (paragraphs doc) ++ table_loop [] (tables doc).
Proof. unfold extract. simpl. by rewrite (table_loop_appends (paragraph_loop _ _)),
  (table_loop_appends []). Qed.

End Loops.

(** ** Paragraphs *)

(** C1: the lines that the paragraph loop produces are the texts of the
    paragraphs whose stripped text is not empty, in document order; a
    paragraph adds its line to [content] if and only if its stripped text
    is not empty, and adds nothing else. *)
Theorem paragraph_lines_are_nonblank_paragraphs (ps : list Paragraph) :
  paragraph_loop [] ps
  = para_text <$> filter (λ p, strip (para_text p) ≠ []) ps
  ∧ ∀ content para,
      paragraph_step content para
      = if decide (strip (para_text para) ≠ []) then content ++ [para_text para]
        else content.
Proof.
  split.
  - by rewrite paragraph_loop_filter.
  - intros content para. unfold paragraph_step.
    destruct (strip (para_text para)); simpl; try case_decide; done.
Qed.

(** ** Table rows *)

(** C2: a row adds a line to [content] if and only if the stripped text of
    at least one of its cells is not empty; the line is the stripped texts
    of the cells, those that are empty left out, joined by [" | "] in column
    order; a row whose cells are all blank adds nothing. *)
Theorem row_line_iff_some_cell_nonblank (content : list text) (row : Row) :
  row_step content row
  = if decide (Exists (λ c, strip (cell_text c) ≠ []) (cells row))
    then content ++ [join (py " | ")
                       (filter (λ s, s ≠ []) ((λ c, strip (cell_text c)) <$> cells row))]
    else content.
Proof.
  unfold row_step. simpl. rewrite cell_loop_filter. simpl.
  case_decide as Hex; rewrite <- kept_cells_nonempty in Hex.
  - apply truthy_true in Hex. by rewrite Hex.
  - apply dec_stable in Hex. by rewrite Hex.
Qed.

(** ** The content list *)

Lemma body_projections_swap (before after : list Block) (p : Paragraph) (t : Table) :
  document_of_body (before ++ BlockTable t :: BlockParagraph p :: after)
  = document_of_body (before ++ BlockParagraph p :: BlockTable t :: after).
Proof.
  unfold document_of_body, body_paragraphs, body_tables.
  by rewrite !omap_app.
Qed.

(** C3: the final content list is all the paragraph lines followed by all
    the table lines, the tables taken in document order and the rows of each
    table in order; where a table stood among the paragraphs is not kept:
    exchanging a table with the paragraph that follows it leaves the
    content unchanged. *)
Theorem content_is_paragraphs_then_tables (doc : Document) :
  extract doc
  = paragraph_loop [] (paragraphs doc)
    ++ (tables doc ≫= λ table, rows table ≫= row_step [])
  ∧ ∀ before after p t,
      extract (document_of_body (before ++ BlockTable t :: BlockParagraph p :: after))
      = extract (document_of_body (before ++ BlockParagraph p :: BlockTable t :: after)).
Proof.
  split.
  - by rewrite extract_split, (table_loop_appends []).
  - intros. by rewrite body_projections_swap.
Qed.

Lemma paragraph_lines_not_blank (ps : list Paragraph) :
  Forall (λ line, strip line ≠ []) (paragraph_loop [] ps).
Proof.
  rewrite paragraph_loop_filter. simpl. rewrite Forall_fmap.
  apply Forall_forall. by intros p [? _]%list_elem_of_filter.
Qed.

Lemma row_line_not_blank (row : Row) :
  Forall (λ line, strip line ≠ []) (row_step [] row).
Proof.
  unfold row_step. cbv zeta. rewrite cell_loop_filter, app_nil_l.
  destruct (filter _ _) as [|s kept] eqn:Hkept; cbn [truthy app]; [done|].
  apply Forall_singleton, strip_nonempty, join_visible.
  assert (s ∈ filter (λ s, s ≠ []) ((λ c, strip (cell_text c)) <$> cells row))
    as [Hs [c [-> _]]%list_elem_of_fmap]%list_elem_of_filter
    by (rewrite Hkept; left).
  by apply strip_visible.
Qed.

(** C10: no entry of the content list is empty or made of whitespace only:
    the stripped text of every line, from a paragraph or from a table row,
    is not empty. *)
Theorem content_lines_not_blank (doc : Document) :
  Forall (λ line, strip line ≠ [] ∧ line ≠ []) (extract doc).
Proof.
  assert (Forall (λ line, strip line ≠ []) (extract doc)) as H.
  { rewrite extract_split, table_loop_appends. simpl.
    apply Forall_app. split; [apply paragraph_lines_not_blank|].
    apply Forall_bind, Forall_forall. intros table _.
    apply Forall_bind, Forall_forall. intros row _.
    apply row_line_not_blank. }
  eapply Forall_impl; [exact H|]. intros line Hline. split; [done|].
  by intros ->.
Qed.

(** C5, the claim as stated fails: the line of a paragraph that starts or
    ends with whitespace is emitted with that whitespace. *)
Lemma trimmed_paragraph_lines_fails :
  ¬ trimmed_paragraph_lines indented_document.
Proof. by vm_compute. Qed.

(** C5, as the script behaves: the output starts with exactly one line for
    each paragraph that is not blank, in the original order; each such line
    is the text of the paragraph as it is, not trimmed (trimming is used
    only to decide whether the paragraph is blank); the table lines come
    after them. *)
Theorem paragraph_lines_as_written (doc : Document) :
  take (length (nonblank_paragraphs doc)) (extract doc)
  = para_text <$> nonblank_paragraphs doc
  ∧ drop (length (nonblank_paragraphs doc)) (extract doc)
    = table_loop [] (tables doc).
Proof.
  rewrite extract_split, paragraph_loop_filter. simpl.
  fold (nonblank_paragraphs doc).
  assert (length (nonblank_paragraphs doc)
          = length (para_text <$> nonblank_paragraphs doc)) as ->
    by by rewrite length_fmap.
  by rewrite take_app_length, drop_app_length.
Qed.

(** ** Reading the output back *)

(** C6, the claim as stated fails: an empty content list is written as the
    empty string, which splits into one empty line; and a line that holds a
    newline splits into several. *)
Lemma round_trip_fails :
  ¬ round_trip empty_document ∧ ¬ round_trip line_break_document.
Proof. split; by vm_compute. Qed.

(** C6, as the script behaves: when the content list is not empty and none
    of its lines holds a newline character, splitting the written text on
    newlines gives back the content list exactly. *)
Theorem round_trip_without_inner_newlines (doc : Document) :
  extract doc ≠ [] →
  Forall (λ line, LF ∉ line) (extract doc) →
  round_trip doc.
Proof. intros Hne Hnl. by apply split_lines_join. Qed.

Lemma round_trip_without_inner_newlines_witness :
  extract sample_document ≠ []
  ∧ Forall (λ line, LF ∉ line) (extract sample_document)
  ∧ round_trip sample_document.
Proof.
  assert (extract sample_document ≠ []) as Hne by (by vm_compute).
  assert (Forall (λ line, LF ∉ line) (extract sample_document)) as Hnl
    by (apply (bool_decide_unpack _); vm_compute; reflexivity).
  split; [exact Hne|]. split; [exact Hnl|].
  exact (round_trip_without_inner_newlines sample_document Hne Hnl).
Defined.

(** The two conditions are needed: a round trip happens only with them. *)
Lemma round_trip_only_if (doc : Document) :
  round_trip doc →
  extract doc ≠ [] ∧ Forall (λ line, LF ∉ line) (extract doc).
Proof.
  unfold round_trip, rendered. generalize (extract doc). intros l Hl.
  assert (l ≠ []) as Hne.
  { intros ->. by apply (split_lines_nonempty []). }
  split; [done|].
  apply (f_equal length) in Hl.
  rewrite split_lines_length, newlines_join in Hl by done.
  apply newlines_none. destruct l; [done|]. cbn [length] in Hl. lia.
Qed.

(** ** Running the script *)

Section Running.

Implicit Types (E : environment) (w : world) (doc : Document) (e : exn).

Ltac run_script :=
  cbv [main healthy docx_Document with_open_w open_w file_write file_close
       leaving print emit log raise set_file get_file mbind mret run_bind
       run_ret document_outcome open_outcome write_outcome files stdout
       calls fst snd].

(** A run in which no collaborator raises. *)
Lemma main_healthy doc w :
  main (healthy doc) w
  = (World (<[output_path := rendered doc]> (files w))
       (stdout w
        ++ py "Extracted successfully to modul_praktikum.txt" ++ newline
        ++ (newline ++ replicate 50 (N_of_ascii "=")) ++ newline
        ++ py "CONTENT:" ++ newline
        ++ (replicate 50 (N_of_ascii "=") ++ newline) ++ newline
        ++ rendered doc ++ newline)
       (calls w
        ++ [CallDocument input_path; CallOpen output_path;
            CallWrite output_path (rendered doc); CallClose output_path;
            CallPrint (py "Extracted successfully to modul_praktikum.txt");
            CallPrint (newline ++ replicate 50 (N_of_ascii "="));
            CallPrint (py "CONTENT:");
            CallPrint (replicate 50 (N_of_ascii "=") ++ newline);
            CallPrint (rendered doc)]),
     inr ()).
Proof.
  destruct w as [fs out cs]. run_script.
  rewrite lookup_insert_eq, insert_insert_eq.
  change (times (py "=") 50) with (replicate 50 (N_of_ascii "=")).
  fold (rendered doc). cbn [default app].
  by rewrite <- !(assoc_L (++)).
Qed.

(** Runs in which a collaborator raises. *)
Lemma main_document_raises E w e :
  document_outcome E = inl e →
  main E w
  = (World (files w) (stdout w) (calls w ++ [CallDocument input_path]), inl e).
Proof. destruct w, E as [d o wr]. simpl. intros ->. reflexivity. Qed.

Lemma main_open_raises E w doc e :
  document_outcome E = inr doc →
  open_outcome E = Some e →
  main E w
  = (World (files w) (stdout w)
       (calls w ++ [CallDocument input_path; CallOpen output_path]), inl e).
Proof.
  destruct w, E as [d o wr]. simpl. intros -> ->. run_script.
  by rewrite <- !(assoc_L (++)).
Qed.

Lemma main_write_raises E w doc e :
  document_outcome E = inr doc →
  open_outcome E = None →
  write_outcome E = Some e →
  main E w
  = (World (<[output_path := []]> (files w)) (stdout w)
       (calls w ++ [CallDocument input_path; CallOpen output_path;
                    CallWrite output_path (rendered doc);
                    CallClose output_path]), inl e).
Proof.
  destruct w, E as [d o wr]. simpl. intros -> -> ->. run_script.
  by rewrite <- !(assoc_L (++)).
Qed.

Lemma first_raised_none E :
  first_raised E = None ↔ ∃ doc, E = healthy doc.
Proof.
  destruct E as [[e|doc] [e'|] [e''|]]; unfold first_raised, healthy; simpl;
    (split; [try done | by intros [? [=]]]).
  intros _. by exists doc.
Qed.

End Running.

(** ** The output file *)

(** The joined text ends with the last line: nothing follows it. *)
Lemma join_last (sep : text) (l : list text) (s : text) :
  ∃ before, join sep (l ++ [s]) = before ++ s.
Proof.
  induction l as [|t l [before IH]].
  - by exists [].
  - exists (t ++ sep ++ before).
    change ((t :: l) ++ [s]) with (t :: (l ++ [s])).
    rewrite join_cons by (by destruct l).
    by rewrite IH, <- !(assoc_L (++)).
Qed.

(** C4: after a run the output file holds the content lines joined by single
    newline characters and nothing else, whatever the file held before; no
    other file is touched; for a document without paragraphs and tables the
    file holds the empty string. *)
Theorem output_file_is_joined_content (doc : Document) (w : world) :
  files (main (healthy doc) w).1 !! output_path
  = Some (join newline (extract doc))
  ∧ (∀ path, path ≠ output_path →
       files (main (healthy doc) w).1 !! path = files w !! path)
  ∧ files (main (healthy empty_document) w).1 !! output_path = Some [].
Proof.
  rewrite !main_healthy. cbn [fst files]. split; [|split].
  - by rewrite lookup_insert_eq.
  - intros path Hpath. by rewrite lookup_insert_ne.
  - by rewrite lookup_insert_eq.
Qed.

(** C7: the output of a run is a function of the document alone: two runs
    on the same document, from any two states of the world, both complete
    and leave the same text in the output file and print the same text; a
    second run after a first one leaves the files as they are. *)
Theorem output_is_function_of_document (doc : Document) (w1 w2 : world) :
  (main (healthy doc) w1).2 = inr ()
  ∧ (main (healthy doc) w2).2 = inr ()
  ∧ files (main (healthy doc) w1).1 !! output_path
    = files (main (healthy doc) w2).1 !! output_path
  ∧ (∃ printed,
       stdout (main (healthy doc) w1).1 = stdout w1 ++ printed
       ∧ stdout (main (healthy doc) w2).1 = stdout w2 ++ printed)
  ∧ files (main (healthy doc) (main (healthy doc) w1).1).1
    = files (main (healthy doc) w1).1.
Proof.
  rewrite !main_healthy. cbn [fst snd files stdout].
  repeat split.
  - by rewrite !lookup_insert_eq.
  - eexists. split; reflexivity.
  - by rewrite insert_insert_eq.
Qed.

(** ** The console *)

(** C8: a run prints, after the file is written and closed, a confirmation
    line, an empty line, a line of fifty ["="], the line ["CONTENT:"], a
    line of fifty ["="] again, an empty line, and then the extracted text,
    which is the very text that the output file holds. *)
Theorem console_output (doc : Document) (w : world) :
  stdout (main (healthy doc) w).1
  = stdout w
    ++ py "Extracted successfully to modul_praktikum.txt" ++ [LF]
    ++ [LF]
    ++ replicate 50 (N_of_ascii "=") ++ [LF]
    ++ py "CONTENT:" ++ [LF]
    ++ replicate 50 (N_of_ascii "=") ++ [LF]
    ++ [LF]
    ++ rendered doc ++ [LF]
  ∧ files (main (healthy doc) w).1 !! output_path = Some (rendered doc)
  ∧ calls (main (healthy doc) w).1
    = calls w
      ++ [CallDocument input_path; CallOpen output_path;
          CallWrite output_path (rendered doc); CallClose output_path;
          CallPrint (py "Extracted successfully to modul_praktikum.txt");
          CallPrint ([LF] ++ replicate 50 (N_of_ascii "="));
          CallPrint (py "CONTENT:");
          CallPrint (replicate 50 (N_of_ascii "=") ++ [LF]);
          CallPrint (rendered doc)].
Proof.
  rewrite main_healthy. cbn [fst files stdout calls]. split; [|split].
  - unfold newline. by rewrite <- !(assoc_L (++)).
  - by rewrite lookup_insert_eq.
  - done.
Qed.

(** ** Failures *)

(** C9: the script catches nothing.  When a collaborator raises, while the
    document is opened and decoded or while the output file is opened or
    written, the run ends with that very exception; nothing is printed; no
    call is made a second time and none is made after the failure, apart
    from closing the file when the write failed inside the [with] block; no
    file other than the output file is touched. *)
Theorem failures_propagate (E : environment) (w : world) (e : exn) :
  first_raised E = Some e →
  (main E w).2 = inl e
  ∧ stdout (main E w).1 = stdout w
  ∧ (∀ path, path ≠ output_path →
       files (main E w).1 !! path = files w !! path)
  ∧ ∃ made,
      calls (main E w).1 = calls w ++ made
      ∧ (made = [CallDocument input_path]
         ∨ made = [CallDocument input_path; CallOpen output_path]
         ∨ ∃ data, made = [CallDocument input_path; CallOpen output_path;
                           CallWrite output_path data; CallClose output_path]).
Proof.
  unfold first_raised.
  destruct (document_outcome E) as [e1|doc] eqn:Hdoc.
  { intros [= ->]. rewrite (main_document_raises E w e Hdoc).
    cbn [fst snd files stdout calls]. repeat split. eexists. split; [done|].
    by left. }
  destruct (open_outcome E) as [e2|] eqn:Hopen.
  { intros [= ->]. rewrite (main_open_raises E w doc e Hdoc Hopen).
    cbn [fst snd files stdout calls]. repeat split. eexists. split; [done|].
    right. by left. }
  intros Hwrite. rewrite (main_write_raises E w doc e Hdoc Hopen Hwrite).
  cbn [fst snd files stdout calls]. repeat split.
  - intros path Hpath. by rewrite lookup_insert_ne.
  - eexists. split; [done|]. right. right. by eexists.
Qed.

Lemma failures_propagate_witness :
  first_raised (locked_output sample_document) = Some PermissionError
  ∧ (main (locked_output sample_document) initial_world).2 = inl PermissionError
  ∧ stdout (main (locked_output sample_document) initial_world).1
    = stdout initial_world.
Proof.
  assert (first_raised (locked_output sample_document) = Some PermissionError)
    as H by reflexivity.
  split; [exact H|].
  destruct (failures_propagate (locked_output sample_document) initial_world
              PermissionError H) as (Hres & Hout & _).
  split; [exact Hres | exact Hout].
Defined.


(** * Further properties of the script *)

(** ** What [strip] keeps *)

Section Stripping.

Implicit Types (s t pre suf : text) (c : N).

Lemma lstrip_whitespace s : whitespace s → lstrip s = [].
Proof.
induction 1 as [|c s Hc _ IH]; [done|]. simpl. by rewrite Hc.
Qed.

Lemma lstrip_skip pre s : whitespace pre → lstrip (pre ++ s) = lstrip s.
Proof.
induction 1 as [|c pre Hc _ IH]; [done|]. simpl. by rewrite Hc.
Qed.

Lemma lstrip_slice s : ∃ pre, s = pre ++ lstrip s ∧ whitespace pre.
Proof.
unfold whitespace.
induction s as [|c s (pre & Hs & Hpre)]; [by exists []|]. simpl.
destruct (isspace c) eqn:Hc.
- exists (c :: pre). split; [by rewrite Hs at 1|]. by constructor.
- by exists [].
Qed.

Lemma lstrip_fixed s : isspace <$> head s ≠ Some true → lstrip s = s.
Proof.
destruct s as [|c s]; [done|]. simpl. by destruct (isspace c).
Qed.

Lemma rstrip_fixed s : isspace <$> last s ≠ Some true → rstrip s = s.
Proof.
intros H. unfold rstrip. rewrite lstrip_fixed, reverse_involutive; [done|].
by rewrite head_reverse.
Qed.

Lemma rstrip_skip s suf : whitespace suf → rstrip (s ++ suf) = rstrip s.
Proof.
intros H. unfold rstrip. rewrite reverse_app, lstrip_skip; [done|].
by apply Forall_reverse.
Qed.

(** A text between two runs of whitespace, itself with no whitespace at
    either end, is what [strip] returns. *)
Lemma strip_unique pre t suf :
  whitespace pre → whitespace suf → trimmed t → strip (pre ++ t ++ suf) = t.
Proof.
intros Hpre Hsuf [Hhead Hlast]. unfold strip. rewrite lstrip_skip by done.
destruct t as [|c t].
- simpl. by rewrite lstrip_whitespace.
- rewrite lstrip_fixed by done. rewrite rstrip_skip by done.
  by apply rstrip_fixed.
Qed.

Lemma lstrip_last s : lstrip s ≠ [] → last (lstrip s) = last s.
Proof.
induction s as [|c s IH]; [done|]. simpl.
destruct (isspace c); [|done]. intros H. rewrite IH by done.
destruct s; [done|]. by rewrite last_cons_cons.
Qed.

Lemma strip_trimmed s : trimmed (strip s).
Proof.
unfold trimmed, strip, rstrip. rewrite head_reverse, last_reverse.
set (u := reverse (lstrip s)). split.
- destruct (lstrip u) as [|c t] eqn:Hu; [done|].
  rewrite <- Hu, lstrip_last by (by rewrite Hu).
  unfold u. rewrite last_reverse.
  destruct (lstrip s) as [|d r] eqn:Hs; [done|]. simpl.
  by rewrite (lstrip_head _ _ _ Hs).
- destruct (lstrip u) as [|c t] eqn:Hu; [done|]. simpl.
  by rewrite (lstrip_head _ _ _ Hu).
Qed.

Lemma strip_slice s :
  ∃ pre suf, s = pre ++ strip s ++ suf ∧ whitespace pre ∧ whitespace suf.
Proof.
destruct (lstrip_slice s) as (pre & Hs & Hpre).
destruct (lstrip_slice (reverse (lstrip s))) as (fus & Hr & Hfus).
exists pre, (reverse fus). split; [|split; [done|by apply Forall_reverse]].
unfold strip, rstrip. rewrite <- reverse_app, <- Hr, reverse_involutive.
exact Hs.
Qed.

End Stripping.

(** X1: [strip] removes whitespace and nothing else, and only at the two
    ends: a text is its stripped text between two runs of whitespace, and
    the stripped text neither starts nor ends with whitespace. *)
Theorem strip_removes_only_outer_whitespace (s : text) :
  (∃ pre suf, s = pre ++ strip s ++ suf ∧ whitespace pre ∧ whitespace suf)
  ∧ trimmed (strip s).
Proof. split; [apply strip_slice | apply strip_trimmed]. Qed.

(** X2: whitespace around the text of a cell makes no difference to the
    row: a cell whose text is padded with whitespace on either side is
    checked and kept as the cell without the padding. *)
Theorem cell_padding_ignored (row_text : list text) (pre t suf : text) :
  whitespace pre → whitespace suf →
  cell_step row_text {| cell_text := pre ++ t ++ suf |}
  = cell_step row_text {| cell_text := t |}.
Proof.
intros Hpre Hsuf. unfold cell_step. cbn [cell_text].
destruct (strip_slice t) as (pre' & suf' & Ht & Hpre' & Hsuf').
assert (strip (pre ++ t ++ suf) = strip t) as ->; [|done].
rewrite Ht at 1.
replace (pre ++ (pre' ++ strip t ++ suf') ++ suf)
  with ((pre ++ pre') ++ strip t ++ (suf' ++ suf))
  by (by rewrite <- !(assoc_L (++))).
apply strip_unique; [by apply Forall_app|by apply Forall_app|].
apply strip_trimmed.
Qed.

Lemma cell_padding_ignored_witness :
  whitespace (py "  ") ∧ whitespace [0xA0; 0x09]
  ∧ cell_step [py "A"] {| cell_text := py "  " ++ py "B" ++ [0xA0; 0x09] |}
    = cell_step [py "A"] {| cell_text := py "B" |}.
Proof.
assert (whitespace (py "  ")) as H1 by (by repeat constructor).
assert (whitespace [0xA0; 0x09]) as H2 by (by repeat constructor).
split; [exact H1|]. split; [exact H2|].
exact (cell_padding_ignored [py "A"] (py "  ") (py "B") [0xA0; 0x09] H1 H2).
Defined.

(** ** The shape of the content list *)

Section Shape.

Implicit Types (s t sep : text) (l : list text) (cs : list Cell)
  (rs : list Row) (ts : list Table) (doc : Document).

Lemma join_head sep s l : s ≠ [] → head (join sep (s :: l)) = head s.
Proof. destruct s; [done|]. by destruct l. Qed.

Lemma join_nonempty sep l :
  l ≠ [] → Forall (λ s, s ≠ []) l → join sep l ≠ [].
Proof.
destruct l as [|s l]; [done|]. intros _ [Hs _]%Forall_cons.
pose proof (join_head sep s l Hs) as H. intros Hj. rewrite Hj in H.
by destruct s.
Qed.

Lemma join_last_char sep l :
  l ≠ [] → Forall (λ s, s ≠ []) l → last (join sep l) = last l ≫= last.
Proof.
induction l as [|s l IH]; [done|]. intros _ [Hs Hl]%Forall_cons.
destruct l as [|t l]; [done|].
rewrite join_cons, last_cons_cons, !last_app by done.
rewrite IH by done.
destruct (last (t :: l) ≫= last) eqn:E; [done|].
exfalso. specialize (IH ltac:(done) Hl). apply last_None in IH.
by apply join_nonempty in IH.
Qed.

Lemma filter_nil_Forall {A} (P : A → Prop) `{∀ x, Decision (P x)} (xs : list A) :
  filter P xs = [] ↔ Forall (λ x, ¬ P x) xs.
Proof.
induction xs as [|x xs IH]; [done|].
rewrite filter_cons, Forall_cons. case_decide; [|by rewrite IH; tauto].
split; [done|]. by intros [? _].
Qed.

Lemma bind_bind {A B C} (f : A → list B) (g : B → list C) (xs : list A) :
  xs ≫= (λ x, f x ≫= g) = (xs ≫= f) ≫= g.
Proof.
induction xs as [|x xs IH]; [done|].
by rewrite !bind_cons, bind_app, IH.
Qed.

(** The cell texts kept for a row: each is not empty and has no whitespace
    at either end. *)
Lemma kept_cells_trimmed cs :
  Forall (λ t, t ≠ [] ∧ trimmed t) (cell_loop [] cs).
Proof.
rewrite cell_loop_filter, app_nil_l. apply Forall_forall.
intros t [Ht [c [-> _]]%list_elem_of_fmap]%list_elem_of_filter.
split; [done|]. apply strip_trimmed.
Qed.

Lemma joined_cells_trimmed sep l :
  l ≠ [] → Forall (λ t, t ≠ [] ∧ trimmed t) l → trimmed (join sep l).
Proof.
intros Hne Hl. split.
- destruct l as [|s l]; [done|]. apply Forall_cons in Hl as [[Hs [Hh _]] _].
  by rewrite join_head.
- rewrite join_last_char; [|done|by eapply Forall_impl; [exact Hl|intros ? []]].
  destruct (last l) as [t|] eqn:Hlast; [|done]. simpl.
  apply last_Some in Hlast as [l' ->].
  by apply Forall_app in Hl as [_ [[_ [_ Ht]] _]%Forall_cons].
Qed.

Lemma row_line_trimmed (row : Row) :
  Forall (λ line, strip line = line) (row_step [] row).
Proof.
unfold row_step. cbv zeta.
pose proof (kept_cells_trimmed (cells row)) as Hkept.
destruct (cell_loop [] (cells row)) as [|s kept] eqn:E; cbn [truthy app]; [done|].
apply Forall_singleton.
rewrite <- (app_nil_r (join _ _)) at 1.
apply (strip_unique [] _ []); [by constructor|by constructor|].
by apply joined_cells_trimmed.
Qed.

(** The table lines in closed form: one line for each row, of any table,
    that has a cell which is not blank. *)
Lemma table_loop_filter ts :
  table_loop [] ts
  = (λ row, join delimiter
              (filter (λ s, s ≠ []) ((λ c, strip (cell_text c)) <$> cells row)))
    <$> filter (λ row, Exists (λ c, strip (cell_text c) ≠ []) (cells row))
          (ts ≫= rows).
Proof.
rewrite table_loop_appends, app_nil_l, bind_bind.
apply bind_filter_fmap. intros row. unfold row_step. cbv zeta.
rewrite cell_loop_filter, app_nil_l.
case_decide as Hex; rewrite <- kept_cells_nonempty in Hex.
- apply truthy_true in Hex. by rewrite Hex.
- apply dec_stable in Hex. by rewrite Hex.
Qed.

Lemma extract_lines_visible doc :
  Forall (λ line, strip line ≠ []) (extract doc).
Proof.
rewrite extract_split, table_loop_appends. simpl.
apply Forall_app. split; [apply paragraph_lines_not_blank|].
apply Forall_bind, Forall_forall. intros table _.
apply Forall_bind, Forall_forall. intros row _.
apply row_line_not_blank.
Qed.

End Shape.

(** X3: every line that comes from a table row is already trimmed: it
    neither starts nor ends with whitespace, so stripping it changes
    nothing (paragraph lines, kept as they are, need not be). *)
Theorem table_lines_are_trimmed (ts : list Table) :
  Forall (λ line, strip line = line ∧ trimmed line) (table_loop [] ts).
Proof.
rewrite table_loop_appends, app_nil_l.
apply Forall_bind, Forall_forall. intros table _.
apply Forall_bind, Forall_forall. intros row _.
eapply Forall_impl; [apply row_line_trimmed|].
intros line Hline. split; [done|]. rewrite <- Hline. apply strip_trimmed.
Qed.

(** X4: the number of content lines is the number of paragraphs that are not
    blank plus the number of rows with a cell that is not blank; it is at
    most the number of paragraphs plus the number of rows of all tables. *)
Theorem content_line_count (doc : Document) :
  length (extract doc)
  = (length (nonblank_paragraphs doc)
     + length (filter (λ row, Exists (λ c, strip (cell_text c) ≠ []) (cells row))
                 (tables doc ≫= rows)))%nat
  ∧ (length (extract doc)
     ≤ length (paragraphs doc) + length (tables doc ≫= rows))%nat.
Proof.
assert (length (extract doc)
  = (length (nonblank_paragraphs doc)
     + length (filter (λ row, Exists (λ c, strip (cell_text c) ≠ []) (cells row))
                 (tables doc ≫= rows)))%nat) as Hcount.
{ rewrite extract_split, paragraph_loop_filter, table_loop_filter, app_nil_l.
  by rewrite length_app, !length_fmap. }
split; [done|]. rewrite Hcount. unfold nonblank_paragraphs.
pose proof (length_filter (λ p, strip (para_text p) ≠ []) (paragraphs doc)).
pose proof (length_filter
  (λ row, Exists (λ c, strip (cell_text c) ≠ []) (cells row)) (tables doc ≫= rows)).
lia.
Qed.

(** X5: the text written to the output file is empty exactly when the
    document shows nothing: every paragraph is blank and every cell of
    every row of every table is blank. *)
Theorem output_empty_iff_document_blank (doc : Document) :
  rendered doc = []
  ↔ Forall (λ p, strip (para_text p) = []) (paragraphs doc)
    ∧ Forall (λ row, Forall (λ c, strip (cell_text c) = []) (cells row))
        (tables doc ≫= rows).
Proof.
assert (rendered doc = [] ↔ extract doc = []) as ->.
{ unfold rendered. split; [|by intros ->].
  intros Hj. destruct (decide (extract doc = [])) as [|Hne]; [done|].
  exfalso. revert Hj. apply join_nonempty; [done|].
  eapply Forall_impl; [apply extract_lines_visible|].
  by intros line Hline ->. }
rewrite extract_split, paragraph_loop_filter, table_loop_filter, !app_nil_l.
rewrite app_nil. split.
- intros [Hp%fmap_nil_inv%filter_nil_Forall Ht%fmap_nil_inv%filter_nil_Forall].
  split.
  + eapply Forall_impl; [exact Hp|]. intros p Hb. by apply dec_stable.
  + eapply Forall_impl; [exact Ht|]. intros row Hb.
    apply Forall_Exists_neg in Hb.
    eapply Forall_impl; [exact Hb|]. intros c Hc. by apply dec_stable.
- intros [Hp Ht]. split.
  + rewrite (proj2 (filter_nil_Forall _ _)); [done|].
    eapply Forall_impl; [exact Hp|]. by intros p -> ?.
  + rewrite (proj2 (filter_nil_Forall _ _)); [done|].
    eapply Forall_impl; [exact Ht|]. intros row Hb.
    apply Forall_Exists_neg. eapply Forall_impl; [exact Hb|]. by intros c -> ?.
Qed.

(** X6: extraction does not follow the order of the document body: for a
    body made of two parts, the content is the paragraph lines of both
    parts and then the table lines of both parts. *)
Theorem extract_of_appended_bodies (body1 body2 : list Block) :
  extract (document_of_body (body1 ++ body2))
  = paragraph_loop [] (body_paragraphs body1)
    ++ paragraph_loop [] (body_paragraphs body2)
    ++ table_loop [] (body_tables body1)
    ++ table_loop [] (body_tables body2).
Proof.
rewrite extract_split. unfold document_of_body, body_paragraphs, body_tables.
cbn [paragraphs tables]. rewrite !omap_app.
rewrite !paragraph_loop_filter, !table_loop_appends, !app_nil_l.
by rewrite filter_app, fmap_app, bind_app, <- !(assoc_L (++)).
Qed.

(** X7: extracting again changes nothing: a document whose paragraphs are
    the extracted lines of a document has those same lines as content. *)
Theorem extract_again (doc : Document) :
  extract (as_paragraphs (extract doc)) = extract doc.
Proof.
rewrite (extract_split (as_paragraphs _)). cbn [as_paragraphs paragraphs tables].
rewrite paragraph_loop_filter, app_nil_l. cbn [table_loop foldl].
rewrite app_nil_r.
pose proof (extract_lines_visible doc) as H.
induction H as [|line lines Hline _ IH]; [done|].
rewrite fmap_cons, filter_cons. cbn [para_text].
case_decide; [|done]. by rewrite fmap_cons, IH.
Qed.

(** ** What a run leaves behind *)

Section Outcomes.

Implicit Types (E : environment) (w : world) (doc : Document) (e : exn).

Lemma input_is_not_output : input_path ≠ output_path.
Proof. done. Qed.

(** The four ways a run can go, by what the collaborators answer. *)
Lemma main_cases E w :
  (∃ e, first_raised E = Some e
        ∧ main E w
          = (World (files w) (stdout w) (calls w ++ [CallDocument input_path]),
             inl e))
  ∨ (∃ e, first_raised E = Some e
          ∧ main E w
            = (World (files w) (stdout w)
                 (calls w ++ [CallDocument input_path; CallOpen output_path]),
               inl e))
  ∨ (∃ e doc, first_raised E = Some e
              ∧ document_outcome E = inr doc
              ∧ main E w
                = (World (<[output_path := []]> (files w)) (stdout w)
                     (calls w ++ [CallDocument input_path; CallOpen output_path;
                                  CallWrite output_path (rendered doc);
                                  CallClose output_path]), inl e))
  ∨ (∃ doc, first_raised E = None ∧ E = healthy doc).
Proof.
destruct E as [[e|doc] [e'|] [e''|]].
- left. exists e. split; [done|]. by apply main_document_raises.
- left. exists e. split; [done|]. by apply main_document_raises.
- left. exists e. split; [done|]. by apply main_document_raises.
- left. exists e. split; [done|]. by apply main_document_raises.
- right. left. exists e'. split; [done|]. by eapply main_open_raises.
- right. left. exists e'. split; [done|]. by eapply main_open_raises.
- right. right. left. exists e'', doc. split; [done|]. split; [done|].
  by apply main_write_raises.
- right. right. right. by exists doc.
Qed.

End Outcomes.

(** X8: a run that fails before the output file is open, because the
    document cannot be read or the output file cannot be opened, leaves
    every file as it was, the previous output included, and prints
    nothing. *)
Theorem early_failure_keeps_files (E : environment) (w : world) :
  (∃ e, document_outcome E = inl e) ∨ (∃ e, open_outcome E = Some e) →
  files (main E w).1 = files w
  ∧ stdout (main E w).1 = stdout w
  ∧ ∃ e, (main E w).2 = inl e.
Proof.
intros Hfail.
destruct (document_outcome E) as [e|doc] eqn:Hdoc.
- rewrite (main_document_raises E w e Hdoc). cbn. eauto.
- destruct Hfail as [[e [=]]|[e Hopen]].
  rewrite (main_open_raises E w doc e Hdoc Hopen). cbn. eauto.
Qed.

Lemma early_failure_keeps_files_witness :
  ((∃ e, document_outcome unreadable_input = inl e)
   ∨ (∃ e, open_outcome unreadable_input = Some e))
  ∧ files (main unreadable_input initial_world).1 = files initial_world.
Proof.
assert ((∃ e, document_outcome unreadable_input = inl e)
        ∨ (∃ e, open_outcome unreadable_input = Some e)) as H
  by (left; eexists; reflexivity).
split; [exact H|].
exact (proj1 (early_failure_keeps_files unreadable_input initial_world H)).
Defined.






(** X12: no run writes to the input document: whatever the collaborators
    answer, the file at the input path is after the run what it was
    before. *)
Theorem input_file_untouched (E : environment) (w : world) :
  files (main E w).1 !! input_path = files w !! input_path.
Proof.
destruct (main_cases E w)
  as [(e & Hr & ->)|[(e & Hr & ->)|[(e & doc & Hr & _ & ->)|(doc & Hr & ->)]]];
  rewrite ?main_healthy; cbn [fst files]; try done.
- apply lookup_insert_ne. by intros ?%symmetry%input_is_not_output.
- apply lookup_insert_ne. by intros ?%symmetry%input_is_not_output.
Qed.
